(** * TBDBpy: a shallow embedding of [tbdb/__init__.py]

    The module is a thin client: every public function optionally collects
    credentials on the terminal, stores them in the caller's dictionary,
    builds a JSON envelope with defaults and posts it.  The embedding keeps
    that shape: Python values are a JSON-like tree, the caller's dictionary
    lives in a store of mutable objects, and the terminal, the printed
    output and the HTTP traffic are fields of an explicit world threaded
    through a small exception monad. *)

From stdpp Require Import gmap strings list fin_maps.
From Stdlib Require Import Ascii ZArith.

#[local] Set Warnings "-register-all".
#[local] Open Scope string_scope.

(** ** Python values and the run-time operations the module uses *)

Module Py.

(** A Python float: a finite binary64 number [m * 2^e], an infinity or a
    NaN.  The module only copies floats and hands them to the JSON encoder,
    so what matters is whether one is finite. *)
Inductive pyfloat : Type :=
  | FloatFinite (m e : Z)
  | FloatInf (negative : bool)
  | FloatNaN.

(** The values that flow through the module: what [json.loads] produces and
    what the caller may put in a parameter dictionary.  Dictionaries are
    keyed by strings, as JSON objects are.  For the two operations used on
    fetched data ([in] and subscripting) a float behaves like an integer. *)
Inductive pyval : Type :=
  | VNone
  | VBool (b : bool)
  | VInt (z : Z)
  | VStr (s : string)
  | VList (l : list pyval)
  | VDict (d : gmap string pyval)
  | VFloat (f : pyfloat).

Inductive exn : Type :=
  | KeyError (key : string)
  | TypeError
  | EOFError
  | ConnectionError
  | JSONDecodeError
  | UnboundReference
  | InvalidJSONError                    (* requests: the body cannot be encoded *)
  | ValueError                          (* json.loads: an integer too long to convert *)
  | RecursionError                      (* json.loads: nesting too deep *)
  | RequestException (class : string).  (* requests: Timeout, TooManyRedirects, ... *)

(** [Diverged] is not a Python outcome: it is what a loop of the model
    yields when its fuel is spent.  [_authenticate_terminates] below shows
    the module never produces it. *)
Inductive outcome (A : Type) : Type :=
  | Return (a : A)
  | Raise (e : exn)
  | Diverged.
Arguments Return {A} a.
Arguments Raise {A} e.
Arguments Diverged {A}.

(** [str.lower()].  Strings are byte strings here and only ASCII letters are
    folded; the module compares the result with ['y'] only, and ['Y'] is the
    one character Python lowers to ['y']. *)
Definition lower_ascii (c : ascii) : ascii :=
  let n := nat_of_ascii c in
  if (65 <=? n)%nat && (n <=? 90)%nat then ascii_of_nat (n + 32) else c.

Fixpoint lower (s : string) : string :=
  match s with
  | EmptyString => EmptyString
  | String c t => String (lower_ascii c) (lower t)
  end.

(** [needle in hay] for two strings: substring test. *)
Fixpoint str_contains (needle hay : string) : bool :=
  String.prefix needle hay ||
  match hay with
  | EmptyString => false
  | String _ t => str_contains needle t
  end.

(** [x == VStr k]: a string equals only an equal string. *)
Definition eq_str (k : string) (v : pyval) : bool :=
  match v with
  | VStr s => String.eqb k s
  | _ => false
  end.

(** [k in container] for a string [k]. *)
Definition py_in (k : string) (container : pyval) : outcome bool :=
  match container with
  | VDict d => Return (bool_decide (is_Some (d !! k)))
  | VList l => Return (existsb (eq_str k) l)
  | VStr s => Return (str_contains k s)
  | VNone | VBool _ | VInt _ | VFloat _ => Raise TypeError
  end.

(** [container[k]] for a string [k]. *)
Definition py_getitem (container : pyval) (k : string) : outcome pyval :=
  match container with
  | VDict d =>
      match d !! k with
      | Some v => Return v
      | None => Raise (KeyError k)
      end
  | _ => Raise TypeError
  end.

(** *** The world *)

Definition loc := nat.

Record request : Type := mkRequest { req_url : string; req_json : pyval }.

(** What one [requests.post] comes back with: no connection; a body that
    [json.loads] either parses ([Some]) or rejects as malformed ([None]);
    another failure of the request, by the name of its exception class; or a
    body of well-formed JSON that [json.loads] still gives up on, because an
    integer in it has too many digits or because it is nested too deep. *)
Inductive http_reply : Type :=
  | NoConnection
  | Body (parsed : option pyval)
  | RequestFails (class : string)
  | HugeIntegerBody
  | TooDeepBody.

(** [resp.text], by what [json.loads] makes of it. *)
Inductive response_text : Type :=
  | Text (parsed : option pyval)
  | HugeIntegerText
  | TooDeepText.

(** What the JSON encoder of [requests] accepts ([allow_nan=False]): every
    value of the model but an infinity or a NaN, at any depth. *)
Fixpoint serialisable (v : pyval) : bool :=
  match v with
  | VFloat (FloatFinite _ _) => true
  | VFloat _ => false
  | VList l => forallb serialisable l
  | VDict d => map_fold (fun _ item rest => serialisable item && rest) true d
  | _ => true
  end.

Record world : Type := mkWorld {
  heap : gmap loc (gmap string pyval);   (* mutable dictionaries, by reference *)
  keyboard : list string;                (* lines the user will type *)
  stdout : list string;                  (* printed lines and prompts *)
  posted : list request;                 (* calls of requests.post, oldest first *)
  server : list request -> http_reply    (* reply to the last of the requests so far *)
}.

Definition set_heap (h : gmap loc (gmap string pyval)) (w : world) : world :=
  mkWorld h (keyboard w) (stdout w) (posted w) (server w).
Definition set_keyboard (k : list string) (w : world) : world :=
  mkWorld (heap w) k (stdout w) (posted w) (server w).
Definition set_stdout (o : list string) (w : world) : world :=
  mkWorld (heap w) (keyboard w) o (posted w) (server w).
Definition set_posted (p : list request) (w : world) : world :=
  mkWorld (heap w) (keyboard w) (stdout w) p (server w).

(** *** The monad: state passing with exceptions *)

Definition M (A : Type) : Type := world -> outcome A * world.

Definition ret {A} (a : A) : M A := fun w => (Return a, w).

Definition raise {A} (e : exn) : M A := fun w => (Raise e, w).

Definition bind {A B} (m : M A) (k : A -> M B) : M B :=
  fun w =>
    match m w with
    | (Return a, w') => k a w'
    | (Raise e, w') => (Raise e, w')
    | (Diverged, w') => (Diverged, w')
    end.

Definition lift {A} (o : outcome A) : M A := fun w => (o, w).

Module Import Notations.
  Notation "x <- c1 ;;; c2" := (bind c1 (fun x => c2))
    (at level 20, c1 at level 99, c2 at level 200, only parsing).
  Notation "c1 ;;; c2" := (bind c1 (fun _ => c2))
    (at level 100, c2 at level 200, only parsing, right associativity).
End Notations.

(** [print(s)] *)
Definition print (s : string) : M unit :=
  fun w => (Return tt, set_stdout (stdout w ++ [s]) w).

(** Reading one line from the terminal; [EOFError] at end of input. *)
Definition read_line : M string :=
  fun w =>
    match keyboard w with
    | [] => (Raise EOFError, w)
    | l :: rest => (Return l, set_keyboard rest w)
    end.

(** [input(prompt)] writes the prompt to standard output, then reads. *)
Definition input (prompt : string) : M string :=
  print prompt ;;; read_line.

(** [getpass.getpass(prompt)] prompts on the terminal device, not on
    standard output, and reads without echo. *)
Definition getpass (prompt : string) : M string := read_line.

(** [requests.post(url, json=body)] followed by [resp.text].  The body is
    encoded first: when that fails the call raises [InvalidJSONError] and
    nothing is sent, so the server has no say. *)
Definition requests_post (url : string) (body : pyval) : M response_text :=
  fun w =>
    let w' := set_posted (posted w ++ [mkRequest url body]) w in
    if serialisable body then
      match server w (posted w') with
      | NoConnection => (Raise ConnectionError, w')
      | RequestFails class => (Raise (RequestException class), w')
      | Body b => (Return (Text b), w')
      | HugeIntegerBody => (Return HugeIntegerText, w')
      | TooDeepBody => (Return TooDeepText, w')
      end
    else (Raise InvalidJSONError, w').

(** [json.loads(text)] *)
Definition json_loads (text : response_text) : M pyval :=
  match text with
  | Text (Some v) => ret v
  | Text None => raise JSONDecodeError
  | HugeIntegerText => raise ValueError
  | TooDeepText => raise RecursionError
  end.

(** Dictionary objects in the store. *)
Definition deref (r : loc) : M (gmap string pyval) :=
  fun w =>
    match heap w !! r with
    | Some d => (Return d, w)
    | None => (Raise UnboundReference, w)
    end.

(** [r[k] = v] *)
Definition setitem (r : loc) (k : string) (v : pyval) : M unit :=
  fun w =>
    match heap w !! r with
    | Some d => (Return tt, set_heap (<[r := <[k := v]> d]> (heap w)) w)
    | None => (Raise UnboundReference, w)
    end.

(** A dictionary literal evaluated to a new object. *)
Definition alloc (d : gmap string pyval) : M loc :=
  fun w =>
    let r := fresh (dom (heap w)) in
    (Return r, set_heap (<[r := d]> (heap w)) w).

End Py.

Import Py Py.Notations.

(** ** The module [tbdb] *)

(** *** [_makeReq] *)

(** [queryParams[k] if k in queryParams else {}] *)
Definition or_empty (queryParams : gmap string pyval) (k : string) : pyval :=
  match queryParams !! k with
  | Some v => v
  | None => VDict ∅
  end.

(** The block under the first [if DB_query:]: the dictionary literal, whose
    first entry subscripts [queryParams] without a guard, and the optional
    copy of ['nsAuth']. *)
Definition build_query (queryParams : gmap string pyval)
  : outcome (gmap string pyval) :=
  match queryParams !! "corpusName" with
  | None => Raise (KeyError "corpusName")
  | Some corpusName =>
      let query : gmap string pyval :=
        list_to_map
          [ ("corpusName", corpusName);
            ("corpora", or_empty queryParams "corpora");
            ("lang", or_empty queryParams "lang");
            ("media", or_empty queryParams "media");
            ("age", or_empty queryParams "age");
            ("gender", or_empty queryParams "gender");
            ("designType", or_empty queryParams "designType");
            ("activityType", or_empty queryParams "activityType");
            ("groupType", or_empty queryParams "groupType");
            ("cqlArr", or_empty queryParams "cqlArr");
            ("nGram", or_empty queryParams "nGram");
            ("respType", VStr "JSON") ] in
      match queryParams !! "nsAuth" with
      | Some nsAuth => Return (<["nsAuth" := nsAuth]> query)
      | None => Return query
      end
  end.

Definition base_url : string := "https://sla2.talkbank.org:1515/".

Definition _makeReq (queryParams : loc) (route : string) (DB_query : bool)
  : M pyval :=
  let URL := base_url ++ route in
  if DB_query then
    params <- deref queryParams ;;;
    query <- lift (build_query params) ;;;
    resp <- requests_post URL (VDict {[ "queryVals" := VDict query ]}) ;;;
    json_loads resp
  else
    resp <- requests_post URL (VDict ∅) ;;;
    json_loads resp.

(** *** [_authenticate] *)

(** The record appended for one entry. *)
Definition auth_record (path user_id password : string) : pyval :=
  VDict (list_to_map
           [ ("path", VStr path); ("userID", VStr user_id);
             ("pswd", VStr password) ]).

(** [while another == 'y': ...], entered with the current [authReqs] and
    [another].  Leaving the loop through its condition falls off the end of
    the function, which returns [None]. *)
Fixpoint while_another (fuel : nat) (authReqs : list pyval) (another : string)
  : M pyval :=
  match fuel with
  | O => fun w => (Diverged, w)
  | S fuel' =>
      if String.eqb another "y" then
        path <- input "Path to authenticate: " ;;;
        user_id <- input "User ID: " ;;;
        password <- getpass "Password: " ;;;
        let authReqs := (authReqs ++ [auth_record path user_id password])%list in
        another <- input "Authenticate another? (Y/N): " ;;;
        if negb (String.eqb (lower another) "y") then ret (VList authReqs)
        else while_another fuel' authReqs another
      else ret VNone
  end.

(** Every iteration reads from the terminal or raises, so one more than the
    number of pending lines is fuel enough. *)
Definition _authenticate : M pyval :=
  fun w => while_another (S (length (keyboard w))) [] "y" w.

(** *** Public API *)

Definition getTranscripts (queryParams : loc) (auth : bool) : M pyval :=
  (if auth then
     nsAuth <- _authenticate ;;;
     setitem queryParams "nsAuth" nsAuth
   else ret tt) ;;;
  _makeReq queryParams "getTranscriptSummary" true.

Definition getParticipants (queryParams : loc) (auth : bool) : M pyval :=
  (if auth then
     nsAuth <- _authenticate ;;;
     setitem queryParams "nsAuth" nsAuth
   else ret tt) ;;;
  _makeReq queryParams "getParticipantSummary" true.

Definition getUtterances (queryParams : loc) (auth : bool) : M pyval :=
  (if auth then
     nsAuth <- _authenticate ;;;
     setitem queryParams "nsAuth" nsAuth
   else ret tt) ;;;
  _makeReq queryParams "getUtteranceSummary" true.

Definition getTokens (queryParams : loc) (auth : bool) : M pyval :=
  (if auth then
     nsAuth <- _authenticate ;;;
     setitem queryParams "nsAuth" nsAuth
   else ret tt) ;;;
  _makeReq queryParams "getTokenSummary" true.

Definition getTokenTypes (queryParams : loc) (auth : bool) : M pyval :=
  (if auth then
     nsAuth <- _authenticate ;;;
     setitem queryParams "nsAuth" nsAuth
   else ret tt) ;;;
  _makeReq queryParams "getTokenTypes" true.

Definition getCQL (queryParams : loc) (auth : bool) : M pyval :=
  (if auth then
     nsAuth <- _authenticate ;;;
     setitem queryParams "nsAuth" nsAuth
   else ret tt) ;;;
  _makeReq queryParams "cql" true.

Definition getNgrams (queryParams : loc) (auth : bool) : M pyval :=
  (if auth then
     nsAuth <- _authenticate ;;;
     setitem queryParams "nsAuth" nsAuth
   else ret tt) ;;;
  _makeReq queryParams "getNgrams" true.

Definition public_query_functions : list (loc -> bool -> M pyval) :=
  [ getTranscripts; getParticipants; getUtterances; getTokens;
    getTokenTypes; getCQL; getNgrams ].

Definition getPathTrees : M pyval :=
  queryParams <- alloc ∅ ;;;
  _makeReq queryParams "getPathTrees" false.

(** The inner function of [validPath].  On the branch where the segment is
    found the recursive call is a statement, not a [return]. *)
Fixpoint checkPath (targetPath : list string) (pathTree : pyval) : M pyval :=
  match targetPath with
  | [] => ret (VBool true)
  | segment :: rest =>
      found <- lift (py_in segment pathTree) ;;;
      if found then
        subtree <- lift (py_getitem pathTree segment) ;;;
        checkPath rest subtree ;;;
        ret VNone
      else
        print ("Invalid path at: " ++ segment) ;;;
        ret (VBool false)
  end.

(** [def checkPath(targetPath, pathTree=getPathTrees())] evaluates its
    default once when the [def] runs, that is on every call of [validPath];
    the call below then fetches the tree again. *)
Definition validPath (targetPath : list string) : M pyval :=
  getPathTrees ;;;
  pathTree <- getPathTrees ;;;
  checkPath ("respMsg" :: targetPath) pathTree.

(** ** Vocabulary of the statements *)

(** The keys the dictionary literal fills with [{}] when the caller leaves
    them out. *)
Definition optional_keys : list string :=
  [ "corpora"; "lang"; "media"; "age"; "gender"; "designType";
    "activityType"; "groupType"; "cqlArr"; "nGram" ].

(** The body the seven query functions share, with the route left open. *)
Definition query_function (route : string) (queryParams : loc) (auth : bool)
  : M pyval :=
  (if auth then
     nsAuth <- _authenticate ;;;
     setitem queryParams "nsAuth" nsAuth
   else ret tt) ;;;
  _makeReq queryParams route true.

(** The request a data query puts on the wire. *)
Definition envelope_request (route : string) (query : gmap string pyval)
  : request :=
  mkRequest (base_url ++ route) (VDict {[ "queryVals" := VDict query ]}).


(** A world for examples: the caller's dictionary is the object at address
    [0], [typed] is what the user will type and the server answers every
    request with [reply]. *)
Definition world_with (params : gmap string pyval) (typed : list string)
    (reply : http_reply) : world :=
  mkWorld {[ 0%nat := params ]} typed [] [] (fun _ => reply).

Definition childes_params : gmap string pyval :=
  {[ "corpusName" := VStr "childes" ]}.

Definition empty_table : http_reply :=
  Body (Some (VDict (list_to_map [("colHeadings", VList []); ("data", VList [])]))).

(** Path trees that are dictionaries all the way down (leaves are empty
    dictionaries). *)
Inductive nested_mapping : pyval -> Prop :=
  | nested_mapping_dict (d : gmap string pyval) :
      (forall k v, d !! k = Some v -> nested_mapping v) ->
      nested_mapping (VDict d).

(** The reply of [/getPathTrees] used in the documentation's examples: the
    tree sits under ['respMsg'] and contains childes/childes/Clinical. *)
Definition clinical_reply : pyval :=
  VDict {[ "respMsg" :=
    VDict {[ "childes" :=
      VDict {[ "childes" :=
        VDict {[ "Clinical" := VDict ∅ ]} ]} ]} ]}.

Definition clinical_world : world :=
  world_with ∅ [] (Body (Some clinical_reply)).

(** One entry typed at the three prompts: path, user ID, password. *)
Definition entry : Type := string * string * string.

Definition record_of (e : entry) : pyval :=
  let '(path, user_id, password) := e in auth_record path user_id password.

(** The lines typed in a session that makes the entries [first :: more],
    answers [y] after every entry but the last, and [stop] after the last. *)
Fixpoint typed_session (first : entry) (more : list entry) (stop : string)
  : list string :=
  let '(path, user_id, password) := first in
  match more with
  | [] => [path; user_id; password; stop]
  | next :: more' =>
      [path; user_id; password; "y"] ++ typed_session next more' stop
  end.

(** The three prompts that reach standard output in one iteration. *)
Definition prompts : list string :=
  [ "Path to authenticate: "; "User ID: "; "Authenticate another? (Y/N): " ].

(** The request [getPathTrees] makes. *)
Definition path_trees_request : request :=
  mkRequest (base_url ++ "getPathTrees") (VDict ∅).

(** Each query function with the route it posts to. *)
Definition public_routes : list ((loc -> bool -> M pyval) * string) :=
  [ (getTranscripts, "getTranscriptSummary");
    (getParticipants, "getParticipantSummary");
    (getUtterances, "getUtteranceSummary");
    (getTokens, "getTokenSummary");
    (getTokenTypes, "getTokenTypes");
    (getCQL, "cql");
    (getNgrams, "getNgrams") ].

(** The keys of the caller's dictionary that [_makeReq] looks at. *)
Definition recognized_keys : list string :=
  "corpusName" :: (optional_keys ++ ["nsAuth"])%list.

(** The outcome of a request once it is on the wire: the reply decides. *)
Definition reply_outcome (reply : http_reply) : outcome pyval :=
  match reply with
  | NoConnection => Raise ConnectionError
  | RequestFails class => Raise (RequestException class)
  | Body None => Raise JSONDecodeError
  | Body (Some v) => Return v
  | HugeIntegerBody => Raise ValueError
  | TooDeepBody => Raise RecursionError
  end.

(** The first segment of a path that a tree of nested dictionaries does not
    have, walking down from the root; [None] when the whole path is there. *)
Fixpoint first_missing (targetPath : list string) (pathTree : pyval)
  : option string :=
  match targetPath with
  | [] => None
  | segment :: rest =>
      match pathTree with
      | VDict d =>
          match d !! segment with
          | Some subtree => first_missing rest subtree
          | None => Some segment
          end
      | _ => Some segment
      end
  end.

(** A tree with two corpora, for examples. *)
Definition two_corpora : pyval :=
  VDict {[ "childes" := VDict {[ "Eng-NA" := VDict {[ "MacWhinney" := VDict ∅ ]} ]};
           "aphasia" := VDict ∅ ]}.
#[local] Open Scope list_scope.

(** ** The request normalizer *)

Section Normalizer.

Lemma build_query_missing params :
  params !! "corpusName" = None ->
  build_query params = Raise (KeyError "corpusName").
Proof. intros H. unfold build_query. by rewrite H. Qed.

Lemma build_query_returns params corpusName :
  params !! "corpusName" = Some corpusName ->
  exists query, build_query params = Return query.
Proof.
  intros H. unfold build_query. rewrite H.
  destruct (params !! "nsAuth"); eauto.
Qed.

Lemma build_query_corpusName params query corpusName :
  params !! "corpusName" = Some corpusName ->
  build_query params = Return query ->
  query !! "corpusName" = Some corpusName.
Proof.
  intros H. unfold build_query. rewrite H.
  destruct (params !! "nsAuth"); intros [= <-]; simpl; by simplify_map_eq.
Qed.

Lemma build_query_respType params query :
  build_query params = Return query ->
  query !! "respType" = Some (VStr "JSON").
Proof.
  unfold build_query. destruct (params !! "corpusName"); [|done].
  destruct (params !! "nsAuth"); intros [= <-]; simpl; by simplify_map_eq.
Qed.

Lemma build_query_optional params query k :
  build_query params = Return query ->
  k ∈ optional_keys ->
  query !! k = Some (or_empty params k).
Proof.
  unfold build_query. destruct (params !! "corpusName"); [|done].
  intros Hq Hk. unfold optional_keys in Hk.
  repeat (apply elem_of_cons in Hk as [-> | Hk]).
  11: by inversion Hk.
  all: destruct (params !! "nsAuth"); injection Hq as <-; simpl.
  all: by simplify_map_eq.
Qed.


Lemma build_query_dom params query :
  build_query params = Return query ->
  dom query =
    list_to_set ("corpusName" :: optional_keys ++ ["respType"])
    ∪ (match params !! "nsAuth" with Some _ => {[ "nsAuth" ]} | None => ∅ end).
Proof.
  unfold build_query. destruct (params !! "corpusName"); [|done].
  destruct (params !! "nsAuth"); intros [= <-]; simpl;
    rewrite !dom_insert_L; set_solver.
Qed.

(** What a data query does once the envelope is built: one request goes out
    and the reply decides the outcome. *)
Lemma makeReq_data_query w queryParams params query route :
  heap w !! queryParams = Some params ->
  build_query params = Return query ->
  _makeReq queryParams route true w =
    let w' := set_posted (posted w ++ [envelope_request route query]) w in
    (if serialisable (req_json (envelope_request route query))
     then reply_outcome (server w (posted w'))
     else Raise InvalidJSONError, w').
Proof.
  intros Hr Hq. unfold _makeReq, bind, deref, lift, requests_post.
  rewrite Hr, Hq. cbn -[serialisable].
  destruct (serialisable _); [|reflexivity].
  destruct (server w _) as [|[v|]|class| |]; reflexivity.
Qed.

Lemma makeReq_data_query_posted w queryParams params query route :
  heap w !! queryParams = Some params ->
  build_query params = Return query ->
  posted (snd (_makeReq queryParams route true w)) =
    (posted w ++ [envelope_request route query]).
Proof.
  intros Hr Hq. by rewrite (makeReq_data_query _ _ _ _ _ Hr Hq).
Qed.

Lemma makeReq_heap w queryParams route DB_query :
  heap (snd (_makeReq queryParams route DB_query w)) = heap w.
Proof.
  unfold _makeReq, bind, deref, lift, requests_post, json_loads, ret, raise.
  destruct DB_query; cbn -[serialisable].
  - destruct (heap w !! queryParams) as [params|]; [|done].
    destruct (build_query params); try done. cbn -[serialisable].
    destruct (serialisable _); [|reflexivity].
    destruct (server w _) as [|[v|]|class| |]; reflexivity.
  - destruct (server w _) as [|[v|]|class| |]; reflexivity.
Qed.

(** C3: with ['corpusName'] present, the envelope that is posted has every
    optional key: the empty dictionary where the caller left the key out, the
    caller's value where it is there; and ['respType'] is ["JSON"] whatever
    the caller's dictionary says. *)
Theorem makeReq_fills_defaults w queryParams params route corpusName :
  heap w !! queryParams = Some params ->
  params !! "corpusName" = Some corpusName ->
  exists query,
    posted (snd (_makeReq queryParams route true w)) =
      (posted w ++ [envelope_request route query]) /\
    query !! "corpusName" = Some corpusName /\
    (forall k, k ∈ optional_keys ->
       (params !! k = None -> query !! k = Some (VDict ∅)) /\
       (forall v, params !! k = Some v -> query !! k = Some v)) /\
    query !! "respType" = Some (VStr "JSON").
Proof.
  intros Hr Hc.
  destruct (build_query_returns _ _ Hc) as [query Hq].
  exists query. split; [|split; [|split]].
  - by apply makeReq_data_query_posted with params.
  - by apply build_query_corpusName with params.
  - intros k Hk. rewrite (build_query_optional _ _ _ Hq Hk).
    unfold or_empty. split.
    + by intros ->.
    + by intros v ->.
  - by apply build_query_respType with params.
Qed.

Lemma makeReq_fills_defaults_witness :
  exists query,
    posted (snd (_makeReq 0 "getTokenSummary" true
                   (world_with (<["respType" := VStr "XML"]> childes_params) [] empty_table))) =
      [envelope_request "getTokenSummary" query] /\
    query !! "corpusName" = Some (VStr "childes") /\
    (forall k, k ∈ optional_keys ->
       ((<["respType" := VStr "XML"]> childes_params) !! k = None ->
        query !! k = Some (VDict ∅)) /\
       (forall v, (<["respType" := VStr "XML"]> childes_params) !! k = Some v ->
                  query !! k = Some v)) /\
    query !! "respType" = Some (VStr "JSON").
Proof.
  apply (makeReq_fills_defaults
           (world_with (<["respType" := VStr "XML"]> childes_params) [] empty_table)
           0 (<["respType" := VStr "XML"]> childes_params)
           "getTokenSummary" (VStr "childes")); reflexivity.
Defined.

(** C4: without ['corpusName'] a data query raises [KeyError] and leaves the
    world as it was, so nothing has been posted; with ['corpusName'] the
    envelope is built, the request goes out and no [KeyError] is raised. *)
Theorem makeReq_corpusName_required w queryParams params route :
  heap w !! queryParams = Some params ->
  (params !! "corpusName" = None ->
     _makeReq queryParams route true w = (Raise (KeyError "corpusName"), w)) /\
  (is_Some (params !! "corpusName") ->
     exists query,
       build_query params = Return query /\
       posted (snd (_makeReq queryParams route true w)) =
         (posted w ++ [envelope_request route query]) /\
       forall k, fst (_makeReq queryParams route true w) <> Raise (KeyError k)).
Proof.
  intros Hr. split.
  - intros Hc. unfold _makeReq, bind, deref, lift.
    by rewrite Hr, (build_query_missing _ Hc).
  - intros [corpusName Hc].
    destruct (build_query_returns _ _ Hc) as [query Hq].
    exists query. split; [done|]. split.
    + by apply makeReq_data_query_posted with params.
    + intros k. rewrite (makeReq_data_query _ _ _ _ _ Hr Hq). cbn -[serialisable].
      destruct (serialisable _); [|done].
      by destruct (server w _) as [|[v|]|class| |].
Qed.

Lemma makeReq_corpusName_required_witness :
  _makeReq 0 "cql" true (world_with {[ "lang" := VList [VStr "eng"] ]} [] empty_table)
  = (Raise (KeyError "corpusName"),
     world_with {[ "lang" := VList [VStr "eng"] ]} [] empty_table).
Proof.
  apply (makeReq_corpusName_required
           (world_with {[ "lang" := VList [VStr "eng"] ]} [] empty_table)
           0 {[ "lang" := VList [VStr "eng"] ]} "cql"); reflexivity.
Defined.

(** C5: building the envelope from an envelope gives that envelope back, for
    every dictionary that has ['corpusName']. *)
Theorem build_query_idempotent params corpusName :
  params !! "corpusName" = Some corpusName ->
  exists query,
    build_query params = Return query /\ build_query query = Return query.
Proof.
  intros Hc. unfold build_query at 1. rewrite Hc.
  destruct (params !! "nsAuth") as [nsAuth|] eqn:Ha;
    (eexists; split; [reflexivity|]).
  all: unfold build_query; simpl; simplify_map_eq.
  all: unfold or_empty; by simplify_map_eq.
Qed.

Lemma build_query_idempotent_witness :
  exists query,
    build_query (<["gender" := VList [VStr "female"]]> childes_params) = Return query /\
    build_query query = Return query.
Proof.
  apply (build_query_idempotent
           (<["gender" := VList [VStr "female"]]> childes_params)
           (VStr "childes")); reflexivity.
Defined.

(** C9: the envelope that is posted has the twelve keys of the literal, and
    ['nsAuth'] exactly when the caller's dictionary has it; no other key of
    the caller's dictionary is in it. *)
Theorem envelope_key_set w queryParams params route corpusName :
  heap w !! queryParams = Some params ->
  params !! "corpusName" = Some corpusName ->
  exists query,
    posted (snd (_makeReq queryParams route true w)) =
      (posted w ++ [envelope_request route query]) /\
    dom query =
      list_to_set ("corpusName" :: optional_keys ++ ["respType"])
      ∪ (if bool_decide ("nsAuth" ∈ dom params) then {[ "nsAuth" ]} else ∅) /\
    (forall k, k ∈ dom query ->
       k ∈ "corpusName" :: optional_keys ++ ["respType"; "nsAuth"]).
Proof.
  intros Hr Hc.
  destruct (build_query_returns _ _ Hc) as [query Hq].
  exists query. split; [by apply makeReq_data_query_posted with params|].
  assert (dom query =
      list_to_set ("corpusName" :: optional_keys ++ ["respType"])
      ∪ (if bool_decide ("nsAuth" ∈ dom params) then {[ "nsAuth" ]} else ∅))
    as Hdom.
  { rewrite (build_query_dom _ _ Hq).
    destruct (params !! "nsAuth") as [a|] eqn:Ha.
    - rewrite bool_decide_eq_true_2; [done|]. apply elem_of_dom. eauto.
    - rewrite bool_decide_eq_false_2; [done|]. by apply not_elem_of_dom. }
  split; [done|].
  intros k. rewrite Hdom. clear. unfold optional_keys.
  rewrite elem_of_union, elem_of_list_to_set.
  intros [Hk | Hk].
  - simpl in *. rewrite !elem_of_cons in *. tauto.
  - case_bool_decide; [|by apply elem_of_empty in Hk].
    apply elem_of_singleton in Hk as ->. simpl. rewrite !elem_of_cons. tauto.
Qed.

Lemma envelope_key_set_witness :
  exists query,
    posted (snd (_makeReq 0 "getNgrams" true
                   (world_with (<["color" := VStr "red"]> childes_params) [] empty_table))) =
      [envelope_request "getNgrams" query] /\
    dom query =
      list_to_set ("corpusName" :: optional_keys ++ ["respType"])
      ∪ (if bool_decide ("nsAuth" ∈ dom (<["color" := VStr "red"]> childes_params))
         then {[ "nsAuth" ]} else ∅) /\
    (forall k, k ∈ dom query ->
       k ∈ "corpusName" :: optional_keys ++ ["respType"; "nsAuth"]).
Proof.
  apply (envelope_key_set
           (world_with (<["color" := VStr "red"]> childes_params) [] empty_table)
           0 (<["color" := VStr "red"]> childes_params)
           "getNgrams" (VStr "childes")); reflexivity.
Defined.

End Normalizer.

(** ** The path validator *)

Section PathValidator.

Lemma checkPath_nil pathTree w :
  checkPath [] pathTree w = (Return (VBool true), w).
Proof. reflexivity. Qed.

(** The branch taken when the segment is a key of the dictionary: the
    recursive call runs, and whatever it returns is dropped. *)
Lemma checkPath_found segment rest d subtree w :
  d !! segment = Some subtree ->
  checkPath (segment :: rest) (VDict d) w =
    match checkPath rest subtree w with
    | (Return _, w') => (Return VNone, w')
    | (Raise e, w') => (Raise e, w')
    | (Diverged, w') => (Diverged, w')
    end.
Proof.
  intros Hs. cbn. unfold bind, lift, ret. cbn.
  rewrite bool_decide_eq_true_2 by eauto. rewrite Hs.
  by destruct (checkPath rest subtree w) as [[r|e|] w'].
Qed.

Lemma checkPath_absent segment rest d w :
  d !! segment = None ->
  checkPath (segment :: rest) (VDict d) w =
    (Return (VBool false),
     set_stdout (stdout w ++ ["Invalid path at: " ++ segment]%string) w).
Proof.
  intros Hs. cbn. unfold bind, lift, ret, print. cbn.
  rewrite bool_decide_eq_false_2; [done|].
  rewrite Hs. by intros [? ?].
Qed.

Lemma checkPath_not_Diverged targetPath :
  forall pathTree w, fst (checkPath targetPath pathTree w) <> Diverged.
Proof.
  induction targetPath as [|segment rest IH]; intros pathTree w; [done|].
  cbn. unfold bind, lift, ret, print.
  destruct (py_in segment pathTree) as [[|]|e|] eqn:Hin; cbn; try done.
  - destruct (py_getitem pathTree segment) as [subtree|e|] eqn:Hget; cbn; try done.
    + specialize (IH subtree w).
      by destruct (checkPath rest subtree w) as [[r|e|] w'].
    + by destruct pathTree; cbn in Hget; try destruct (_ !! _).
  - by destruct pathTree.
Qed.

(** The only exception the descent itself can raise is [TypeError], when it
    reaches a value that is not a dictionary. *)
Lemma checkPath_raises_TypeError targetPath :
  forall pathTree w e w',
    checkPath targetPath pathTree w = (Raise e, w') -> e = TypeError.
Proof.
  induction targetPath as [|segment rest IH]; intros pathTree w e w'; [done|].
  cbn. unfold bind, lift, ret, print.
  destruct pathTree as [| b | z | s | l | d | f]; cbn; try congruence.
  - destruct (str_contains segment s); cbn; congruence.
  - destruct (existsb (eq_str segment) l); cbn; congruence.
  - case_bool_decide as Hk; cbn; [|congruence].
    destruct Hk as [subtree Hs]. rewrite Hs. cbn.
    destruct (checkPath rest subtree w) as [[r|e0|] w0] eqn:Hrec; try congruence.
    intros [= <- <-]. eauto.
Qed.

(** A nonempty path never gets [True]. *)
Lemma checkPath_cons_not_True segment rest pathTree w :
  fst (checkPath (segment :: rest) pathTree w) <> Return (VBool true).
Proof.
  cbn. unfold bind, lift, ret, print.
  destruct (py_in segment pathTree) as [[|]|e|]; cbn; try done.
  destruct (py_getitem pathTree segment) as [subtree|e|]; cbn; try done.
  by destruct (checkPath rest subtree w) as [[r|e|] w'].
Qed.

(** On dictionaries all the way down the descent always returns. *)
Lemma checkPath_returns_on_mappings targetPath :
  forall pathTree w, nested_mapping pathTree ->
    exists r w', checkPath targetPath pathTree w = (Return r, w').
Proof.
  induction targetPath as [|segment rest IH]; intros pathTree w Hnm.
  - eauto using checkPath_nil.
  - destruct Hnm as [d Hd].
    destruct (d !! segment) as [subtree|] eqn:Hs.
    + rewrite (checkPath_found _ _ _ _ _ Hs).
      destruct (IH subtree w (Hd _ _ Hs)) as (r & w' & ->). eauto.
    + rewrite (checkPath_absent _ _ _ _ Hs). eauto.
Qed.

(** [validPath] descends from the key ['respMsg'], so its path is never
    empty. *)
Lemma validPath_not_True targetPath w :
  fst (validPath targetPath w) <> Return (VBool true).
Proof.
  unfold validPath, bind.
  destruct (getPathTrees w) as [[r1|e1|] w1]; try done.
  destruct (getPathTrees w1) as [[pathTree|e2|] w2]; try done.
  apply checkPath_cons_not_True.
Qed.

(** C1: on the reply that contains childes/childes/Clinical, [validPath]
    returns [None] for the path that is in the tree (the documentation says
    [True]) and [None] as well for the path whose last segment is missing
    (the documentation says [False]). *)
Theorem validPath_documented_examples :
  fst (validPath ["childes"; "childes"; "Clinical"] clinical_world)
    = Return VNone /\
  fst (validPath ["childes"; "childes"; "doesNotExist"] clinical_world)
    = Return VNone.
Proof. split; vm_compute; reflexivity. Qed.

(** C2 as stated fails: the first segment is a key of the tree, yet the call
    raises instead of returning [None], because the recursive call meets a
    number. *)
Lemma checkPath_found_raises :
  ({[ "a" := VInt 5 ]} : gmap string pyval) !! "a" = Some (VInt 5) /\
  fst (checkPath ["a"; "b"] (VDict {[ "a" := VInt 5 ]}) clinical_world)
    = Raise TypeError /\
  fst (checkPath ["a"; "b"] (VDict {[ "a" := VInt 5 ]}) clinical_world)
    <> Return VNone.
Proof. split; [|split]; vm_compute; [reflexivity | reflexivity | discriminate]. Qed.

(** C2, amended: when the next segment is a key of the current dictionary,
    the value the recursive call returns is dropped and the call returns
    [None]; an exception of the recursive call (always [TypeError])
    propagates; the call never returns a boolean; and on a tree of nested
    dictionaries it returns [None]. *)
Theorem checkPath_drops_recursive_result segment rest d subtree w :
  d !! segment = Some subtree ->
  (forall r w', checkPath rest subtree w = (Return r, w') ->
     checkPath (segment :: rest) (VDict d) w = (Return VNone, w')) /\
  (forall e w', checkPath rest subtree w = (Raise e, w') ->
     e = TypeError /\
     checkPath (segment :: rest) (VDict d) w = (Raise TypeError, w')) /\
  (forall b, fst (checkPath (segment :: rest) (VDict d) w) <> Return (VBool b)) /\
  (nested_mapping subtree ->
     fst (checkPath (segment :: rest) (VDict d) w) = Return VNone).
Proof.
  intros Hs. rewrite (checkPath_found _ _ _ _ _ Hs).
  split; [|split; [|split]].
  - by intros r w' ->.
  - intros e w' Hrec.
    assert (e = TypeError) as -> by eauto using checkPath_raises_TypeError.
    by rewrite Hrec.
  - intros b. by destruct (checkPath rest subtree w) as [[r|e|] w'].
  - intros Hnm.
    by destruct (checkPath_returns_on_mappings rest subtree w Hnm) as (r & w' & ->).
Qed.

Lemma checkPath_drops_recursive_result_witness :
  fst (checkPath ["childes"; "Clinical"]
         (VDict {[ "childes" := VDict {[ "Clinical" := VDict ∅ ]} ]})
         clinical_world) = Return VNone.
Proof.
  destruct (checkPath_drops_recursive_result
              "childes" ["Clinical"]
              {[ "childes" := VDict {[ "Clinical" := VDict ∅ ]} ]}
              (VDict {[ "Clinical" := VDict ∅ ]}) clinical_world)
    as (_ & _ & _ & Hmappings).
  - reflexivity.
  - apply Hmappings. constructor. intros k v Hk.
    apply lookup_singleton_Some in Hk as [_ <-].
    constructor. intros k' v' Hk'. by rewrite lookup_empty in Hk'.
Defined.

End PathValidator.

(** ** The credential collector *)

Section CredentialCollector.

(** Fewer than four lines left on the terminal: the turn ends in [EOFError]
    at one of its reads. *)
Ltac short_of_input w Hk :=
  let kb := fresh "kb" in
  destruct w as [? kb ? ? ?]; cbn in Hk; subst kb; cbn in *;
  by unfold bind, input, getpass, print, read_line, ret in *.

(** One turn of the loop with a full entry and an answer on the terminal. *)
Lemma while_another_turn fuel authReqs w path user_id password another rest :
  keyboard w = path :: user_id :: password :: another :: rest ->
  while_another (S fuel) authReqs "y" w =
    let w' := set_keyboard rest (set_stdout (stdout w ++ prompts) w) in
    let authReqs' := authReqs ++ [auth_record path user_id password] in
    if negb (String.eqb (lower another) "y")
    then (Return (VList authReqs'), w')
    else while_another fuel authReqs' another w'.
Proof.
  destruct w as [h kb out p srv]. cbn. intros ->.
  unfold bind, input, getpass, print, read_line, ret, set_keyboard, set_stdout.
  cbn. rewrite <- !app_assoc. cbn.
  by destruct (negb _).
Qed.

(** Entering the loop with anything but ['y'] leaves it at once, and the
    function ends without a [return]. *)
Lemma while_another_skip fuel authReqs another w :
  another <> "y" ->
  while_another (S fuel) authReqs another w = (Return VNone, w).
Proof.
  intros Hne. cbn. by apply String.eqb_neq in Hne as ->.
Qed.

Lemma while_another_not_Diverged fuel :
  forall authReqs another w,
    length (keyboard w) < fuel ->
    fst (while_another fuel authReqs another w) <> Diverged.
Proof.
  induction fuel as [|fuel IH]; intros authReqs another w Hlen; [lia|].
  destruct (String.eqb_spec another "y") as [-> | Hne].
  2: by rewrite while_another_skip.
  destruct (keyboard w) as [|path [|user_id [|password [|answer rest]]]] eqn:Hk.
  5: { rewrite (while_another_turn _ _ _ _ _ _ _ _ Hk). cbn.
       destruct (negb _); [done|]. apply IH. cbn in *. lia. }
  all: short_of_input w Hk.
Qed.

Lemma _authenticate_terminates w : fst (_authenticate w) <> Diverged.
Proof. apply while_another_not_Diverged. lia. Qed.

Lemma while_another_heap fuel :
  forall authReqs another w,
    heap (snd (while_another fuel authReqs another w)) = heap w.
Proof.
  induction fuel as [|fuel IH]; intros authReqs another w; [done|].
  destruct (String.eqb_spec another "y") as [-> | Hne].
  2: by rewrite while_another_skip.
  destruct (keyboard w) as [|path [|user_id [|password [|answer rest]]]] eqn:Hk.
  5: { rewrite (while_another_turn _ _ _ _ _ _ _ _ Hk). cbn.
       destruct (negb _); [done|]. by rewrite IH. }
  all: short_of_input w Hk.
Qed.

(** A session of entries separated by ['y'] and closed by an answer that
    does not lower to ['y'] yields one record per entry, in order. *)
Lemma while_another_collects more :
  forall first stop rest fuel authReqs w,
    lower stop <> "y" ->
    keyboard w = typed_session first more stop ++ rest ->
    length more < fuel ->
    fst (while_another fuel authReqs "y" w) =
      Return (VList (authReqs ++ map record_of (first :: more))) /\
    keyboard (snd (while_another fuel authReqs "y" w)) = rest.
Proof.
  induction more as [|next more IH];
    intros [[path user_id] password] stop rest fuel authReqs w Hstop Hk Hfuel;
    (destruct fuel as [|fuel]; [cbn in Hfuel; lia|]).
  - rewrite (while_another_turn _ _ _ _ _ _ _ _ Hk). cbn.
    apply String.eqb_neq in Hstop as ->. by cbn.
  - cbn [typed_session app] in Hk.
    rewrite (while_another_turn _ _ _ _ _ _ _ _ Hk). cbv zeta.
    change (negb (String.eqb (lower "y") "y")) with false. cbv iota.
    change (map record_of ((path, user_id, password) :: next :: more))
      with ([auth_record path user_id password] ++ map record_of (next :: more)).
    rewrite app_assoc.
    apply (IH next stop rest); [done | done | cbn in Hfuel; lia].
Qed.

(** Conversely, a list is returned only after such a session. *)
Lemma while_another_returns_list fuel :
  forall authReqs w records w',
    while_another fuel authReqs "y" w = (Return (VList records), w') ->
    exists first more stop,
      lower stop <> "y" /\
      keyboard w = typed_session first more stop ++ keyboard w' /\
      records = authReqs ++ map record_of (first :: more).
Proof.
  induction fuel as [|fuel IH]; intros authReqs w records w' Hrun; [done|].
  destruct (keyboard w) as [|path [|user_id [|password [|answer rest]]]] eqn:Hk.
  1-4: short_of_input w Hk.
  rewrite (while_another_turn _ _ _ _ _ _ _ _ Hk) in Hrun. cbn in Hrun.
  destruct (String.eqb_spec (lower answer) "y") as [Hy | Hn]; cbn in Hrun.
  - destruct (String.eqb_spec answer "y") as [-> | Hne].
    + apply IH in Hrun as (first & more & stop & Hstop & Hkb & ->).
      exists (path, user_id, password), (first :: more), stop.
      split; [done|]. split.
      * cbn -[typed_session] in Hkb. cbn [typed_session app]. by rewrite Hkb.
      * by rewrite <- app_assoc.
    + destruct fuel as [|fuel]; [done|].
      by rewrite while_another_skip in Hrun.
  - injection Hrun as <- <-.
    exists (path, user_id, password), [], answer. by cbn.
Qed.

Lemma record_of_keys (e : entry) :
  exists d,
    record_of e = VDict d /\
    dom d = {[ "path"; "userID"; "pswd" ]} /\
    d !! "path" = Some (VStr e.1.1) /\
    d !! "userID" = Some (VStr e.1.2) /\
    d !! "pswd" = Some (VStr e.2).
Proof.
  destruct e as [[path user_id] password]. eexists. split; [reflexivity|].
  cbn. split; [rewrite !dom_insert_L; set_solver|].
  by simplify_map_eq.
Qed.

Lemma _authenticate_collects w first more stop rest :
  lower stop <> "y" ->
  keyboard w = typed_session first more stop ++ rest ->
  fst (_authenticate w) = Return (VList (map record_of (first :: more))) /\
  keyboard (snd (_authenticate w)) = rest.
Proof.
  intros Hstop Hk. unfold _authenticate.
  apply (while_another_collects more first stop rest _ [] w Hstop Hk).
  rewrite Hk, length_app.
  assert (forall m f, length m < length (typed_session f m stop)) as Hlen.
  { clear. induction m as [|n m IH]; intros [[p u] s]; cbn; [lia|].
    specialize (IH n). lia. }
  specialize (Hlen more first). lia.
Qed.

(** C6 as stated fails.  Typing the word [yes] twice and then [no] gives one
    record: [yes] does not lower to ['y'], so the first answer already ends
    the collection.  Typing [y] twice and then [n] gives three records: the
    first entry is asked for before any answer. *)
Lemma two_yes_then_no_is_not_two_records :
  fst (_authenticate
         (world_with ∅ [ "p1"; "u1"; "s1"; "yes";
                         "p2"; "u2"; "s2"; "yes";
                         "p3"; "u3"; "s3"; "no" ] NoConnection))
    = Return (VList [ auth_record "p1" "u1" "s1" ]) /\
  fst (_authenticate
         (world_with ∅ [ "p1"; "u1"; "s1"; "y";
                         "p2"; "u2"; "s2"; "y";
                         "p3"; "u3"; "s3"; "n" ] NoConnection))
    = Return (VList [ auth_record "p1" "u1" "s1";
                      auth_record "p2" "u2" "s2";
                      auth_record "p3" "u3" "s3" ]).
Proof. split; vm_compute; reflexivity. Qed.

(** C6, amended: two answers [y] followed by an answer that does not lower
    to ['y'] make the collector return exactly three records, those of the
    three entries typed, in the order they were typed. *)
Theorem two_y_then_stop_is_three_records w e1 e2 e3 stop rest :
  lower stop <> "y" ->
  keyboard w = typed_session e1 [e2; e3] stop ++ rest ->
  fst (_authenticate w) =
    Return (VList [ record_of e1; record_of e2; record_of e3 ]).
Proof.
  intros Hstop Hk.
  by destruct (_authenticate_collects w e1 [e2; e3] stop rest Hstop Hk).
Qed.

Lemma two_y_then_stop_is_three_records_witness :
  fst (_authenticate
         (world_with ∅ [ "p1"; "u1"; "s1"; "y";
                         "p2"; "u2"; "s2"; "y";
                         "p3"; "u3"; "s3"; "no" ] NoConnection))
    = Return (VList [ record_of ("p1", "u1", "s1");
                      record_of ("p2", "u2", "s2");
                      record_of ("p3", "u3", "s3") ]).
Proof.
  apply (two_y_then_stop_is_three_records
           (world_with ∅ [ "p1"; "u1"; "s1"; "y";
                           "p2"; "u2"; "s2"; "y";
                           "p3"; "u3"; "s3"; "no" ] NoConnection)
           ("p1", "u1", "s1") ("p2", "u2", "s2") ("p3", "u3", "s3")
           "no" []).
  - vm_compute. discriminate.
  - reflexivity.
Defined.

(** C7: answering [Y] after an entry ends the loop through its condition,
    which compares with ['y'] without lowering, and the function returns
    [None]; the records collected so far are lost. *)
Theorem capital_Y_returns_None w path user_id password rest :
  keyboard w = path :: user_id :: password :: "Y" :: rest ->
  _authenticate w =
    (Return VNone, set_keyboard rest (set_stdout (stdout w ++ prompts) w)).
Proof.
  intros Hk. unfold _authenticate.
  rewrite (while_another_turn _ _ _ _ _ _ _ _ Hk). cbv zeta.
  change (negb (String.eqb (lower "Y") "y")) with false. cbv iota.
  rewrite Hk. cbn [length]. by apply while_another_skip.
Qed.

Lemma capital_Y_returns_None_witness :
  fst (_authenticate
         (world_with ∅ [ "childes/secret"; "alice"; "hunter2"; "Y" ] NoConnection))
    = Return VNone.
Proof.
  rewrite (capital_Y_returns_None
             (world_with ∅ [ "childes/secret"; "alice"; "hunter2"; "Y" ] NoConnection)
             "childes/secret" "alice" "hunter2" []); reflexivity.
Defined.

(** C8 as stated fails: the record has no key ['password']; the password is
    stored under ['pswd']. *)
Lemma credential_record_has_no_password_key :
  exists d,
    fst (_authenticate
           (world_with ∅ [ "childes/secret"; "alice"; "hunter2"; "n" ] NoConnection))
      = Return (VList [ VDict d ]) /\
    d !! "password" = None /\
    d !! "pswd" = Some (VStr "hunter2") /\
    dom d <> {[ "path"; "userID"; "password" ]}.
Proof.
  eexists. split; [vm_compute; reflexivity|].
  split; [done|]. split; [done|].
  intros Heq.
  assert ("password" ∈ ({[ "path"; "userID"; "password" ]} : gset string)) as Hin
    by set_solver.
  rewrite <- Heq in Hin. apply elem_of_dom in Hin as [v Hv]. done.
Qed.

(** C8, amended: whenever the collector returns a list, the list holds one
    record per entry typed, and each record is a dictionary with exactly the
    keys ['path'], ['userID'] and ['pswd'], holding the three strings of its
    entry. *)
Theorem credential_record_shape w records :
  fst (_authenticate w) = Return (VList records) ->
  exists first more stop rest,
    keyboard w = typed_session first more stop ++ rest /\
    records = map record_of (first :: more) /\
    forall e, e ∈ first :: more ->
      exists d,
        record_of e = VDict d /\
        dom d = {[ "path"; "userID"; "pswd" ]} /\
        d !! "path" = Some (VStr e.1.1) /\
        d !! "userID" = Some (VStr e.1.2) /\
        d !! "pswd" = Some (VStr e.2).
Proof.
  intros Hrun. unfold _authenticate in Hrun.
  destruct (while_another _ [] "y" w) as [r w'] eqn:Hw. cbn in Hrun. subst r.
  apply while_another_returns_list in Hw as (first & more & stop & _ & Hk & ->).
  exists first, more, stop, (keyboard w'). split; [done|]. split; [done|].
  intros e _. apply record_of_keys.
Qed.

Lemma credential_record_shape_witness :
  exists first more stop rest,
    [ "childes/secret"; "alice"; "hunter2"; "n" ]
      = typed_session first more stop ++ rest /\
    [ auth_record "childes/secret" "alice" "hunter2" ]
      = map record_of (first :: more) /\
    forall e, e ∈ first :: more ->
      exists d,
        record_of e = VDict d /\
        dom d = {[ "path"; "userID"; "pswd" ]} /\
        d !! "path" = Some (VStr e.1.1) /\
        d !! "userID" = Some (VStr e.1.2) /\
        d !! "pswd" = Some (VStr e.2).
Proof.
  apply (credential_record_shape
           (world_with ∅ [ "childes/secret"; "alice"; "hunter2"; "n" ] NoConnection)
           [ auth_record "childes/secret" "alice" "hunter2" ]).
  vm_compute. reflexivity.
Defined.

End CredentialCollector.

(** ** The public query functions *)

Section PublicAPI.

Lemma _authenticate_heap w : heap (snd (_authenticate w)) = heap w.
Proof. apply while_another_heap. Qed.

(** Without authentication a query function is [_makeReq]. *)
Lemma query_function_no_auth route queryParams w :
  query_function route queryParams false w = _makeReq queryParams route true w.
Proof. reflexivity. Qed.

(** With authentication, once the collector has returned, the caller's
    dictionary is updated in the store and the request is made from the
    updated dictionary. *)
Lemma query_function_auth route queryParams params nsAuth w w1 :
  heap w !! queryParams = Some params ->
  _authenticate w = (Return nsAuth, w1) ->
  query_function route queryParams true w =
    _makeReq queryParams route true
      (set_heap (<[queryParams := <["nsAuth" := nsAuth]> params]> (heap w1)) w1).
Proof.
  intros Hr Hauth. unfold query_function, bind, setitem. rewrite Hauth.
  assert (heap w1 = heap w) as Hh.
  { change w1 with (snd (Return nsAuth, w1)). rewrite <- Hauth.
    apply _authenticate_heap. }
  by rewrite Hh, Hr.
Qed.

Lemma query_function_auth_raises route queryParams e w w1 :
  _authenticate w = (Raise e, w1) ->
  query_function route queryParams true w = (Raise e, w1).
Proof. intros Hauth. unfold query_function, bind. by rewrite Hauth. Qed.

Lemma public_query_function_route f :
  f ∈ public_query_functions -> exists route, f = query_function route.
Proof.
  unfold public_query_functions. rewrite !elem_of_cons, elem_of_nil.
  intros [-> | [-> | [-> | [-> | [-> | [-> | [-> | []]]]]]]]; eexists; reflexivity.
Qed.

(** C10 as stated fails.  With [auth=True] and nothing on the terminal the
    collector raises [EOFError] and the caller's dictionary is left without
    ['nsAuth']; and when the answer is [Y] the credentials that were typed
    are not what is stored: the dictionary gets [None]. *)
Lemma auth_does_not_always_store_credentials :
  (exists params',
      heap (snd (getCQL 0 true (world_with childes_params [] empty_table))) !! 0%nat
        = Some params' /\
      params' !! "nsAuth" = None) /\
  (exists params',
      heap (snd (getCQL 0 true
                   (world_with childes_params
                      [ "childes/secret"; "alice"; "hunter2"; "Y" ] empty_table)))
        !! 0%nat = Some params' /\
      params' !! "nsAuth" = Some VNone).
Proof.
  split; eexists; (split; [vm_compute; reflexivity|]); vm_compute; reflexivity.
Qed.

(** C10, amended: for each of the seven query functions, a call with
    [auth=True] in which the collector returns its list of records (a session
    closed by an answer that does not lower to ['y']) leaves the caller's
    dictionary, in the store, with that list under ['nsAuth'], whatever the
    request then does; when the collector raises, nothing is stored; and a
    call with [auth=False] leaves the store as it was. *)
Theorem auth_updates_callers_mapping f queryParams params w :
  f ∈ public_query_functions ->
  heap w !! queryParams = Some params ->
  (forall first more stop rest,
     lower stop <> "y" ->
     keyboard w = typed_session first more stop ++ rest ->
     heap (snd (f queryParams true w)) =
       <[queryParams :=
           <["nsAuth" := VList (map record_of (first :: more))]> params]>
         (heap w)) /\
  (forall e w1, _authenticate w = (Raise e, w1) ->
     heap (snd (f queryParams true w)) = heap w) /\
  heap (snd (f queryParams false w)) = heap w.
Proof.
  intros Hf Hr. apply public_query_function_route in Hf as [route ->].
  split; [|split].
  - intros first more stop rest Hstop Hk.
    destruct (_authenticate_collects w first more stop rest Hstop Hk)
      as [Hres _].
    pose proof (_authenticate_heap w) as Hh.
    destruct (_authenticate w) as [o w1] eqn:Hauth.
    cbn [fst] in Hres. cbn [snd] in Hh. subst o.
    rewrite (query_function_auth _ _ _ _ _ _ Hr Hauth), makeReq_heap. cbn [heap set_heap].
    by rewrite Hh.
  - intros e w1 Hauth. rewrite (query_function_auth_raises _ _ _ _ _ Hauth).
    change w1 with (snd (@Raise pyval e, w1)). rewrite <- Hauth.
    apply _authenticate_heap.
  - rewrite query_function_no_auth. apply makeReq_heap.
Qed.

Lemma auth_updates_callers_mapping_witness :
  heap (snd (getCQL 0 true
               (world_with childes_params
                  [ "childes/secret"; "alice"; "hunter2"; "n" ] empty_table)))
  = <[0%nat := <["nsAuth" := VList (map record_of [ ("childes/secret", "alice", "hunter2") ])]>
                 childes_params]>
      (heap (world_with childes_params
               [ "childes/secret"; "alice"; "hunter2"; "n" ] empty_table)).
Proof.
  pose proof (auth_updates_callers_mapping getCQL 0 childes_params
                (world_with childes_params
                   [ "childes/secret"; "alice"; "hunter2"; "n" ] empty_table)) as H.
  destruct H as [Hauth _].
  - unfold public_query_functions. do 5 apply list_elem_of_further.
    apply list_elem_of_here.
  - reflexivity.
  - apply (Hauth ("childes/secret", "alice", "hunter2") [] "n" []).
    + vm_compute. discriminate.
    + reflexivity.
Defined.

End PublicAPI.

(** ** More on the credential collector *)

Section CollectorBehaviour.

(** Membership in a list written out in full. *)
Ltac listed :=
  repeat first [ apply list_elem_of_here | apply list_elem_of_further ].

(** The only one-character answers that lower to ['y']. *)
Lemma lower_y_inv (answer : string) :
  lower answer = "y" -> answer = "y" \/ answer = "Y".
Proof.
  destruct answer as [|c [|c' rest]]; cbn; try discriminate.
  intros [= Hc].
  destruct c as [[] [] [] [] [] [] [] []]; vm_compute in Hc; try discriminate Hc;
    auto.
Qed.

(** What the collector leaves alone, and what it adds to standard output. *)
Lemma while_another_frame fuel :
  forall authReqs another w,
    let w' := snd (while_another fuel authReqs another w) in
    heap w' = heap w /\ posted w' = posted w /\ server w' = server w /\
    (exists added, stdout w' = stdout w ++ added /\
                   Forall (fun line => line ∈ prompts) added) /\
    (exists used, keyboard w = used ++ keyboard w').
Proof.
  induction fuel as [|fuel IH]; intros authReqs another w; cbv zeta.
  { cbn. repeat split; try done; exists []; [by rewrite app_nil_r | done]. }
  destruct (String.eqb_spec another "y") as [-> | Hne].
  2: { rewrite while_another_skip by done. cbn.
       repeat split; try done; exists []; [by rewrite app_nil_r | done]. }
  destruct (keyboard w) as [|path [|user_id [|password [|answer rest]]]] eqn:Hk.
  5: { rewrite (while_another_turn _ _ _ _ _ _ _ _ Hk). cbv zeta.
       destruct (negb _).
       - cbn. repeat split; try done.
         + exists prompts. split; [done|]. unfold prompts.
           repeat constructor; listed.
         + by exists [path; user_id; password; answer].
       - destruct (IH (authReqs ++ [auth_record path user_id password]) answer
                     (set_keyboard rest (set_stdout (stdout w ++ prompts) w)))
           as (Hh & Hp & Hs & (added & Hout & Hadded) & (used & Hused)).
         cbn in *. repeat split; try done.
         + exists (prompts ++ added). rewrite Hout, <- app_assoc. split; [done|].
           apply Forall_app. split; [|done].
           unfold prompts. repeat constructor; listed.
         + exists ([path; user_id; password; answer] ++ used).
           rewrite <- app_assoc. cbn. do 4 f_equal. exact Hused. }
  all: destruct w as [h kb out p srv]; cbn in Hk; subst kb; cbn.
  all: unfold bind, input, getpass, print, read_line, ret; cbn.
  all: rewrite <- ?app_assoc; cbn.
  all: repeat split; try done.
  all: try (eexists; split; [reflexivity|]; unfold prompts;
            repeat constructor; listed).
  all: eexists; by rewrite app_nil_r.
Qed.


(** Every run of the loop is of one of three kinds. *)
Lemma while_another_kinds fuel :
  forall authReqs w,
    length (keyboard w) < fuel ->
    (exists first more stop rest,
        lower stop <> "y" /\
        keyboard w = typed_session first more stop ++ rest /\
        fst (while_another fuel authReqs "y" w) =
          Return (VList (authReqs ++ map record_of (first :: more))) /\
        keyboard (snd (while_another fuel authReqs "y" w)) = rest) \/
    (exists first more rest,
        keyboard w = typed_session first more "Y" ++ rest /\
        fst (while_another fuel authReqs "y" w) = Return VNone /\
        keyboard (snd (while_another fuel authReqs "y" w)) = rest) \/
    (fst (while_another fuel authReqs "y" w) = Raise EOFError /\
     keyboard (snd (while_another fuel authReqs "y" w)) = []).
Proof.
  induction fuel as [|fuel IH]; intros authReqs w Hlen; [lia|].
  destruct (keyboard w) as [|path [|user_id [|password [|answer rest]]]] eqn:Hk.
  1-4: right; right; destruct w as [h kb out p srv]; cbn in Hk; subst kb; cbn;
       by unfold bind, input, getpass, print, read_line, ret.
  rewrite (while_another_turn _ _ _ _ _ _ _ _ Hk). cbv zeta.
  destruct (String.eqb_spec (lower answer) "y") as [Hy | Hn]; cbn [negb].
  - apply lower_y_inv in Hy as [-> | ->].
    + destruct (IH (authReqs ++ [auth_record path user_id password])
                  (set_keyboard rest (set_stdout (stdout w ++ prompts) w)))
        as [(first & more & stop & rest' & Hstop & Hkb & Hres & Hleft)
           | [(first & more & rest' & Hkb & Hres & Hleft) | [Hres Hleft]]].
      * cbn in *. lia.
      * left. exists (path, user_id, password), (first :: more), stop, rest'.
        rewrite Hres, Hleft.
        cbn -[typed_session] in Hkb. cbn [typed_session app].
        rewrite Hkb. by rewrite <- app_assoc.
      * right; left. exists (path, user_id, password), (first :: more), rest'.
        rewrite Hres, Hleft.
        cbn -[typed_session] in Hkb. cbn [typed_session app].
        by rewrite Hkb.
      * right; right. by rewrite Hres, Hleft.
    + right; left. exists (path, user_id, password), [], rest.
      destruct fuel as [|fuel]; [cbn in Hlen; lia|].
      by rewrite while_another_skip.
  - left. exists (path, user_id, password), [], answer, rest. by cbn.
Qed.

(** The collector posts nothing, leaves the store alone, and writes nothing
    to standard output but its three prompts; what it reads is a prefix of
    what was typed. *)
Theorem _authenticate_touches_only_terminal w :
  heap (snd (_authenticate w)) = heap w /\
  posted (snd (_authenticate w)) = posted w /\
  server (snd (_authenticate w)) = server w /\
  (exists added,
      stdout (snd (_authenticate w)) = stdout w ++ added /\
      Forall (fun line => line ∈ prompts) added) /\
  (exists used, keyboard w = used ++ keyboard (snd (_authenticate w))).
Proof. apply while_another_frame. Qed.

(** A session of [n + 1] entries, with [y] after each but the last and an
    answer that does not lower to ['y'] after the last, gives [n + 1]
    records, in the order typed, and leaves the rest of the input unread. *)
Theorem collector_one_record_per_entry w first more stop rest :
  lower stop <> "y" ->
  keyboard w = typed_session first more stop ++ rest ->
  exists records,
    fst (_authenticate w) = Return (VList records) /\
    records = map record_of (first :: more) /\
    length records = S (length more) /\
    keyboard (snd (_authenticate w)) = rest.
Proof.
  intros Hstop Hk.
  destruct (_authenticate_collects w first more stop rest Hstop Hk) as [Hres Hrest].
  exists (map record_of (first :: more)).
  by rewrite length_map.
Qed.

Lemma collector_one_record_per_entry_witness :
  exists records,
    fst (_authenticate
           (world_with ∅ [ "childes/a"; "ann"; "pw1"; "y";
                           "childes/b"; "bob"; "pw2"; "N"; "left over" ]
              NoConnection)) = Return (VList records) /\
    records = map record_of [ ("childes/a", "ann", "pw1"); ("childes/b", "bob", "pw2") ] /\
    length records = 2 /\
    keyboard (snd (_authenticate
           (world_with ∅ [ "childes/a"; "ann"; "pw1"; "y";
                           "childes/b"; "bob"; "pw2"; "N"; "left over" ]
              NoConnection))) = [ "left over" ].
Proof.
  apply (collector_one_record_per_entry
           (world_with ∅ [ "childes/a"; "ann"; "pw1"; "y";
                           "childes/b"; "bob"; "pw2"; "N"; "left over" ]
              NoConnection)
           ("childes/a", "ann", "pw1") [ ("childes/b", "bob", "pw2") ]
           "N" [ "left over" ]).
  - vm_compute. discriminate.
  - reflexivity.
Defined.

(** Every run of the collector is of one of three kinds: a session closed by
    an answer that does not lower to ['y'], which returns the records; a
    session closed by [Y], which returns [None]; or the input runs out, which
    raises [EOFError] with all of it read.  A returned list is never
    empty. *)
Theorem _authenticate_outcomes w :
  (exists first more stop rest,
      lower stop <> "y" /\
      keyboard w = typed_session first more stop ++ rest /\
      fst (_authenticate w) = Return (VList (map record_of (first :: more))) /\
      keyboard (snd (_authenticate w)) = rest) \/
  (exists first more rest,
      keyboard w = typed_session first more "Y" ++ rest /\
      fst (_authenticate w) = Return VNone /\
      keyboard (snd (_authenticate w)) = rest) \/
  (fst (_authenticate w) = Raise EOFError /\
   keyboard (snd (_authenticate w)) = []).
Proof.
  unfold _authenticate.
  apply (while_another_kinds (S (length (keyboard w))) [] w). lia.
Qed.

Lemma _authenticate_eof w :
  length (keyboard w) < 4 ->
  fst (_authenticate w) = Raise EOFError.
Proof.
  intros Hlen. unfold _authenticate.
  destruct w as [h kb out p srv]. cbn in *.
  destruct kb as [|path [|user_id [|password [|answer rest]]]];
    [reflexivity | reflexivity | reflexivity | reflexivity | cbn in Hlen; lia].
Qed.

(** With fewer than four lines on the terminal the first entry cannot be
    completed and the collector raises [EOFError]. *)
Theorem short_input_raises_EOFError w :
  length (keyboard w) < 4 ->
  fst (_authenticate w) = Raise EOFError.
Proof. apply _authenticate_eof. Qed.

Lemma short_input_raises_EOFError_witness :
  fst (_authenticate (world_with ∅ [ "childes/a"; "ann" ] NoConnection))
    = Raise EOFError.
Proof.
  apply (short_input_raises_EOFError
           (world_with ∅ [ "childes/a"; "ann" ] NoConnection)).
  cbn. lia.
Defined.

End CollectorBehaviour.

(** ** More on the query functions *)

Section QueryBehaviour.

Ltac listed :=
  repeat first [ apply list_elem_of_here | apply list_elem_of_further ].

Lemma public_routes_shape f route :
  (f, route) ∈ public_routes -> f = query_function route.
Proof.
  unfold public_routes. rewrite !elem_of_cons, elem_of_nil.
  intros [H | [H | [H | [H | [H | [H | [H | []]]]]]]];
    by injection H as -> ->.
Qed.

Lemma _authenticate_frame nsAuth w w1 :
  _authenticate w = (Return nsAuth, w1) ->
  heap w1 = heap w /\ posted w1 = posted w /\ server w1 = server w.
Proof.
  intros Hauth.
  destruct (while_another_frame (S (length (keyboard w))) [] "y" w)
    as (Hh & Hp & Hs & _).
  fold (_authenticate w) in Hh, Hp, Hs. by rewrite Hauth in Hh, Hp, Hs.
Qed.

(** The envelope depends on the caller's dictionary through the recognized
    keys only: two dictionaries that agree on them give the same envelope,
    or the same [KeyError]. *)
Theorem build_query_reads_recognized_keys_only
    (params1 params2 : gmap string pyval) :
  (forall k, k ∈ recognized_keys -> params1 !! k = params2 !! k) ->
  build_query params1 = build_query params2.
Proof.
  intros Hagree.
  assert (forall k, k ∈ recognized_keys -> or_empty params1 k = or_empty params2 k)
    as Hor.
  { intros k Hk. unfold or_empty. by rewrite (Hagree k Hk). }
  unfold build_query, recognized_keys, optional_keys in *. cbn in Hagree, Hor.
  rewrite (Hagree "corpusName"), (Hagree "nsAuth") by listed.
  rewrite (Hor "corpora"), (Hor "lang"), (Hor "media"), (Hor "age"),
    (Hor "gender"), (Hor "designType"), (Hor "activityType"),
    (Hor "groupType"), (Hor "cqlArr"), (Hor "nGram") by listed.
  reflexivity.
Qed.

Lemma build_query_reads_recognized_keys_only_witness :
  build_query (<["respType" := VStr "XML"]> (<["color" := VInt 3]> childes_params))
  = build_query childes_params.
Proof.
  apply (build_query_reads_recognized_keys_only
           (<["respType" := VStr "XML"]> (<["color" := VInt 3]> childes_params))
           childes_params).
  intros k Hk. unfold recognized_keys, optional_keys in Hk. cbn in Hk.
  repeat (apply elem_of_cons in Hk as [-> | Hk]); try reflexivity.
  by apply elem_of_nil in Hk.
Defined.




(** The two branches at work: a finite age range gets the server's reply, a
    NaN in the age range is refused before anything is sent. *)
Example query_with_finite_and_with_NaN_age :
  fst (getTranscripts 0 false
         (world_with (<["age" := VList [VFloat (FloatFinite 14 0)]]> childes_params)
            [] empty_table))
    = reply_outcome empty_table /\
  fst (getTranscripts 0 false
         (world_with (<["age" := VList [VFloat FloatNaN]]> childes_params)
            [] empty_table))
    = Raise InvalidJSONError.
Proof. split; vm_compute; reflexivity. Qed.

Lemma build_query_insert_nsAuth params query nsAuth :
  build_query params = Return query ->
  build_query (<["nsAuth" := nsAuth]> params)
    = Return (<["nsAuth" := nsAuth]> query).
Proof.
  unfold build_query, or_empty.
  rewrite lookup_insert_eq, !lookup_insert_ne by done.
  destruct (params !! "corpusName"); [|done].
  destruct (params !! "nsAuth"); intros [= <-]; [|done].
  by rewrite insert_insert_eq.
Qed.

(** With authentication the envelope that is posted is the one the caller's
    dictionary gives without authentication, with the collector's result
    under ['nsAuth'], in place of any ['nsAuth'] the caller gave. *)
Theorem auth_envelope_carries_credentials
    f route queryParams params corpusName nsAuth w w1 :
  (f, route) ∈ public_routes ->
  heap w !! queryParams = Some params ->
  params !! "corpusName" = Some corpusName ->
  _authenticate w = (Return nsAuth, w1) ->
  exists query,
    build_query params = Return query /\
    posted (snd (f queryParams true w)) =
      posted w ++ [envelope_request route (<["nsAuth" := nsAuth]> query)].
Proof.
  intros Hf Hr Hc Hauth. apply public_routes_shape in Hf as ->.
  destruct (_authenticate_frame _ _ _ Hauth) as (Hh & Hp & _).
  destruct (build_query_returns _ _ Hc) as [query Hq].
  exists query. split; [done|].
  rewrite (query_function_auth _ _ _ _ _ _ Hr Hauth).
  rewrite (makeReq_data_query_posted _ queryParams
             (<["nsAuth" := nsAuth]> params) (<["nsAuth" := nsAuth]> query)).
  - cbn. by rewrite Hp.
  - cbn. by rewrite lookup_insert_eq.
  - by apply build_query_insert_nsAuth.
Qed.

Lemma auth_envelope_carries_credentials_witness :
  exists query,
    build_query (<["nsAuth" := VStr "stale"]> childes_params) = Return query /\
    posted (snd (getTokens 0 true
                   (world_with (<["nsAuth" := VStr "stale"]> childes_params)
                      [ "childes/a"; "ann"; "pw1"; "n" ] empty_table))) =
      [] ++ [envelope_request "getTokenSummary"
               (<["nsAuth" := VList [ auth_record "childes/a" "ann" "pw1" ]]> query)].
Proof.
  apply (auth_envelope_carries_credentials getTokens "getTokenSummary" 0
           (<["nsAuth" := VStr "stale"]> childes_params) (VStr "childes")
           (VList [ auth_record "childes/a" "ann" "pw1" ])
           (world_with (<["nsAuth" := VStr "stale"]> childes_params)
              [ "childes/a"; "ann"; "pw1"; "n" ] empty_table)
           (mkWorld {[ 0%nat := <["nsAuth" := VStr "stale"]> childes_params ]}
              [] prompts [] (fun _ => empty_table))).
  - unfold public_routes. listed.
  - reflexivity.
  - reflexivity.
  - vm_compute. reflexivity.
Defined.

(** With authentication and no ['corpusName'] the user is asked for
    credentials first; they are stored in the caller's dictionary, then
    [KeyError] is raised, and nothing is posted. *)
Theorem auth_runs_before_corpusName_check
    f route queryParams params nsAuth w w1 :
  (f, route) ∈ public_routes ->
  heap w !! queryParams = Some params ->
  params !! "corpusName" = None ->
  _authenticate w = (Return nsAuth, w1) ->
  f queryParams true w =
    (Raise (KeyError "corpusName"),
     set_heap (<[queryParams := <["nsAuth" := nsAuth]> params]> (heap w)) w1) /\
  posted w1 = posted w.
Proof.
  intros Hf Hr Hc Hauth. apply public_routes_shape in Hf as ->.
  destruct (_authenticate_frame _ _ _ Hauth) as (Hh & Hp & _).
  split; [|done].
  rewrite (query_function_auth _ _ _ _ _ _ Hr Hauth).
  unfold _makeReq, bind, deref, lift. cbn. rewrite lookup_insert_eq.
  rewrite build_query_missing by by rewrite lookup_insert_ne.
  by rewrite Hh.
Qed.

Lemma auth_runs_before_corpusName_check_witness :
  getNgrams 0 true
    (world_with {[ "lang" := VList [VStr "eng"] ]}
       [ "childes/a"; "ann"; "pw1"; "n" ] empty_table) =
    (Raise (KeyError "corpusName"),
     set_heap
       (<[0%nat := <["nsAuth" := VList [ auth_record "childes/a" "ann" "pw1" ]]>
                     {[ "lang" := VList [VStr "eng"] ]}]>
          (heap (world_with {[ "lang" := VList [VStr "eng"] ]}
                   [ "childes/a"; "ann"; "pw1"; "n" ] empty_table)))
       (mkWorld {[ 0%nat := {[ "lang" := VList [VStr "eng"] ]} ]}
          [] prompts [] (fun _ => empty_table))) /\
  posted (mkWorld {[ 0%nat := {[ "lang" := VList [VStr "eng"] ]} ]}
            [] prompts [] (fun _ => empty_table)) =
  posted (world_with {[ "lang" := VList [VStr "eng"] ]}
            [ "childes/a"; "ann"; "pw1"; "n" ] empty_table).
Proof.
  apply (auth_runs_before_corpusName_check getNgrams "getNgrams" 0
           {[ "lang" := VList [VStr "eng"] ]}
           (VList [ auth_record "childes/a" "ann" "pw1" ])).
  - unfold public_routes. listed.
  - reflexivity.
  - reflexivity.
  - vm_compute. reflexivity.
Defined.

(** The credentials stored by a call with authentication are sent again by
    any later call on the same dictionary, also one without authentication. *)
Theorem stored_credentials_are_resent
    f route g route' queryParams params corpusName nsAuth w w1 :
  (f, route) ∈ public_routes ->
  (g, route') ∈ public_routes ->
  heap w !! queryParams = Some params ->
  params !! "corpusName" = Some corpusName ->
  _authenticate w = (Return nsAuth, w1) ->
  exists query,
    query !! "nsAuth" = Some nsAuth /\
    posted (snd (g queryParams false (snd (f queryParams true w)))) =
      posted (snd (f queryParams true w)) ++ [envelope_request route' query].
Proof.
  intros Hf Hg Hr Hc Hauth.
  assert (heap (snd (f queryParams true w)) !! queryParams
          = Some (<["nsAuth" := nsAuth]> params)) as Hr'.
  { apply public_routes_shape in Hf as ->.
    destruct (_authenticate_frame _ _ _ Hauth) as (Hh & _).
    rewrite (query_function_auth _ _ _ _ _ _ Hr Hauth), makeReq_heap. cbn.
    by rewrite lookup_insert_eq. }
  apply public_routes_shape in Hg as ->.
  destruct (build_query_returns _ _ Hc) as [query Hq].
  exists (<["nsAuth" := nsAuth]> query). split; [by rewrite lookup_insert_eq|].
  rewrite query_function_no_auth.
  apply makeReq_data_query_posted with (<["nsAuth" := nsAuth]> params); [done|].
  by apply build_query_insert_nsAuth.
Qed.

Lemma stored_credentials_are_resent_witness :
  exists query,
    query !! "nsAuth" = Some (VList [ auth_record "childes/a" "ann" "pw1" ]) /\
    posted (snd (getParticipants 0 false
                   (snd (getTranscripts 0 true
                           (world_with childes_params
                              [ "childes/a"; "ann"; "pw1"; "n" ] empty_table))))) =
      posted (snd (getTranscripts 0 true
                     (world_with childes_params
                        [ "childes/a"; "ann"; "pw1"; "n" ] empty_table)))
      ++ [envelope_request "getParticipantSummary" query].
Proof.
  apply (stored_credentials_are_resent
           getTranscripts "getTranscriptSummary"
           getParticipants "getParticipantSummary" 0
           childes_params (VStr "childes")
           (VList [ auth_record "childes/a" "ann" "pw1" ])
           (world_with childes_params
              [ "childes/a"; "ann"; "pw1"; "n" ] empty_table)
           (mkWorld {[ 0%nat := childes_params ]}
              [] prompts [] (fun _ => empty_table))).
  - unfold public_routes. listed.
  - unfold public_routes. listed.
  - reflexivity.
  - reflexivity.
  - vm_compute. reflexivity.
Defined.

(** A call with authentication and fewer than four lines on the terminal
    (a run without a user, say) raises [EOFError]; nothing is posted and the
    store is as before. *)
Theorem auth_without_input_posts_nothing f route queryParams w :
  (f, route) ∈ public_routes ->
  length (keyboard w) < 4 ->
  fst (f queryParams true w) = Raise EOFError /\
  posted (snd (f queryParams true w)) = posted w /\
  heap (snd (f queryParams true w)) = heap w.
Proof.
  intros Hf Hlen. apply public_routes_shape in Hf as ->.
  pose proof (_authenticate_eof w Hlen) as Heof.
  destruct (while_another_frame (S (length (keyboard w))) [] "y" w)
    as (Hh & Hp & _).
  fold (_authenticate w) in Hh, Hp.
  destruct (_authenticate w) as [o w1] eqn:Hauth. cbn in Heof, Hh, Hp. subst o.
  by rewrite (query_function_auth_raises _ _ _ _ _ Hauth).
Qed.

Lemma auth_without_input_posts_nothing_witness :
  fst (getCQL 0 true (world_with childes_params [] empty_table))
    = Raise EOFError /\
  posted (snd (getCQL 0 true (world_with childes_params [] empty_table)))
    = posted (world_with childes_params [] empty_table) /\
  heap (snd (getCQL 0 true (world_with childes_params [] empty_table)))
    = heap (world_with childes_params [] empty_table).
Proof.
  apply (auth_without_input_posts_nothing getCQL "cql" 0
           (world_with childes_params [] empty_table)).
  - unfold public_routes. listed.
  - cbn. lia.
Defined.

End QueryBehaviour.

(** ** More on the path validator *)

Section ValidatorBehaviour.

(** One run of [getPathTrees]: a new empty dictionary, one request. *)
Lemma getPathTrees_run w :
  getPathTrees w =
    (reply_outcome (server w (posted w ++ [path_trees_request])),
     set_posted (posted w ++ [path_trees_request])
       (set_heap (<[fresh (dom (heap w)) := ∅]> (heap w)) w)).
Proof.
  unfold getPathTrees, _makeReq.
  unfold bind, alloc, requests_post, json_loads, ret, raise, path_trees_request.
  cbn. by destruct (server w _) as [|[v|]|class| |].
Qed.

(** [getPathTrees] makes exactly one request, with the empty object as its
    body; its result is the parsed reply as it is, or the exception of the
    request ([ConnectionError] or another request exception) or of
    [json.loads] ([JSONDecodeError], [ValueError], [RecursionError]); the
    dictionaries already in the store, the terminal and standard output are
    as before. *)
Theorem getPathTrees_one_request w :
  fst (getPathTrees w)
    = reply_outcome (server w (posted w ++ [path_trees_request])) /\
  posted (snd (getPathTrees w)) = posted w ++ [path_trees_request] /\
  req_json path_trees_request = VDict ∅ /\
  (forall r d, heap w !! r = Some d -> heap (snd (getPathTrees w)) !! r = Some d) /\
  keyboard (snd (getPathTrees w)) = keyboard w /\
  stdout (snd (getPathTrees w)) = stdout w.
Proof.
  rewrite getPathTrees_run. cbn. repeat split.
  intros r d Hr. rewrite lookup_insert_ne; [done|].
  intros <-. apply (is_fresh (dom (heap w))). apply elem_of_dom. eauto.
Qed.

Lemma validPath_run targetPath w tree1 tree2 :
  server w (posted w ++ [path_trees_request]) = Body (Some tree1) ->
  server w (posted w ++ [path_trees_request; path_trees_request])
    = Body (Some tree2) ->
  exists w2,
    posted w2 = posted w ++ [path_trees_request; path_trees_request] /\
    stdout w2 = stdout w /\
    keyboard w2 = keyboard w /\
    validPath targetPath w = checkPath ("respMsg" :: targetPath) tree2 w2.
Proof.
  intros H1 H2. unfold validPath, bind.
  rewrite getPathTrees_run, H1. cbn [reply_outcome].
  rewrite getPathTrees_run. cbn [posted set_posted set_heap server].
  rewrite <- app_assoc. cbn [app]. rewrite H2. cbn [reply_outcome].
  eexists. split; [|split; [|split]]; [| | |reflexivity]; reflexivity.
Qed.

(** [validPath] fetches the tree twice: once for the default argument of the
    inner function, once for the call.  The path is checked against the
    second reply, and nothing has been printed before the check starts. *)
Theorem validPath_fetches_twice targetPath w tree1 tree2 :
  server w (posted w ++ [path_trees_request]) = Body (Some tree1) ->
  server w (posted w ++ [path_trees_request; path_trees_request])
    = Body (Some tree2) ->
  exists w2,
    posted w2 = posted w ++ [path_trees_request; path_trees_request] /\
    stdout w2 = stdout w /\
    keyboard w2 = keyboard w /\
    validPath targetPath w = checkPath ("respMsg" :: targetPath) tree2 w2.
Proof. apply validPath_run. Qed.

Lemma validPath_fetches_twice_witness :
  exists w2,
    posted w2 = [] ++ [path_trees_request; path_trees_request] /\
    stdout w2 = [] /\
    keyboard w2 = [] /\
    validPath ["childes"] clinical_world
      = checkPath ["respMsg"; "childes"] clinical_reply w2.
Proof.
  apply (validPath_fetches_twice ["childes"] clinical_world
           clinical_reply clinical_reply); reflexivity.
Defined.

(** When the first fetch fails, [validPath] raises that error after one
    request: the tree is not fetched again and the path is not looked at. *)
Theorem validPath_first_fetch_fails targetPath w e :
  reply_outcome (server w (posted w ++ [path_trees_request])) = Raise e ->
  fst (validPath targetPath w) = Raise e /\
  posted (snd (validPath targetPath w)) = posted w ++ [path_trees_request] /\
  stdout (snd (validPath targetPath w)) = stdout w.
Proof.
  intros H. unfold validPath, bind. rewrite getPathTrees_run, H. by cbn.
Qed.

Lemma validPath_first_fetch_fails_witness :
  fst (validPath ["childes"] (world_with ∅ [] (Body None)))
    = Raise JSONDecodeError /\
  posted (snd (validPath ["childes"] (world_with ∅ [] (Body None))))
    = [] ++ [path_trees_request] /\
  stdout (snd (validPath ["childes"] (world_with ∅ [] (Body None)))) = [].
Proof.
  apply (validPath_first_fetch_fails ["childes"]
           (world_with ∅ [] (Body None)) JSONDecodeError).
  reflexivity.
Defined.

Lemma checkPath_cons_outcomes segment rest pathTree w :
  fst (checkPath (segment :: rest) pathTree w) = Return VNone \/
  fst (checkPath (segment :: rest) pathTree w) = Return (VBool false) \/
  fst (checkPath (segment :: rest) pathTree w) = Raise TypeError.
Proof.
  destruct (checkPath (segment :: rest) pathTree w) as [[r|e|] w'] eqn:Hrun.
  - cbn in Hrun. unfold bind, lift, ret, print in Hrun.
    destruct (py_in segment pathTree) as [[|]|e|]; cbn in Hrun; try done.
    + destruct (py_getitem pathTree segment) as [subtree|e|]; cbn in Hrun;
        try done.
      destruct (checkPath rest subtree w) as [[r'|e|] w'']; try done.
      injection Hrun as <- _. by left.
    + injection Hrun as <- _. by right; left.
  - apply checkPath_raises_TypeError in Hrun as ->. by right; right.
  - pose proof (checkPath_not_Diverged (segment :: rest) pathTree w) as Hnd.
    by rewrite Hrun in Hnd.
Qed.

(** The exceptions a fetch can end in. *)
Lemma reply_outcome_raises reply e :
  reply_outcome reply = Raise e ->
  e = ConnectionError \/ e = JSONDecodeError \/ e = ValueError \/
  e = RecursionError \/ exists class, e = RequestException class.
Proof.
  destruct reply as [|[v|]|class| |]; cbn; intros [= <-]; eauto 10.
Qed.

(** All [validPath] can do: return [None], return [False], or raise
    [TypeError] or one of the exceptions of the HTTP and JSON libraries
    ([ConnectionError] or another request exception, [JSONDecodeError],
    [ValueError], [RecursionError]).  It never returns [True] and never
    raises [KeyError]: the [in] test guards the subscript. *)
Theorem validPath_outcomes targetPath w :
  (fst (validPath targetPath w) = Return VNone \/
   fst (validPath targetPath w) = Return (VBool false) \/
   exists e,
     fst (validPath targetPath w) = Raise e /\
     (e = TypeError \/ e = ConnectionError \/ e = JSONDecodeError \/
      e = ValueError \/ e = RecursionError \/
      exists class, e = RequestException class)) /\
  fst (validPath targetPath w) <> Return (VBool true) /\
  (forall key, fst (validPath targetPath w) <> Raise (KeyError key)).
Proof.
  assert (fst (validPath targetPath w) = Return VNone \/
          fst (validPath targetPath w) = Return (VBool false) \/
          exists e,
            fst (validPath targetPath w) = Raise e /\
            (e = TypeError \/ e = ConnectionError \/ e = JSONDecodeError \/
             e = ValueError \/ e = RecursionError \/
             exists class, e = RequestException class)) as Hkinds.
  { unfold validPath, bind.
    destruct (getPathTrees w) as [[tree1|e1|] w1] eqn:H1;
      cbn -[checkPath getPathTrees].
    - destruct (getPathTrees w1) as [[tree2|e2|] w2] eqn:H2;
        cbn -[checkPath getPathTrees].
      + destruct (checkPath_cons_outcomes "respMsg" targetPath tree2 w2)
          as [H | [H | H]]; eauto 10.
      + rewrite getPathTrees_run in H2. injection H2 as H2 _.
        apply reply_outcome_raises in H2. right; right. exists e2. tauto.
      + rewrite getPathTrees_run in H2. injection H2 as H2 _.
        by destruct (server w1 _) as [|[v|]|class| |].
    - rewrite getPathTrees_run in H1. injection H1 as H1 _.
      apply reply_outcome_raises in H1. right; right. exists e1. tauto.
    - rewrite getPathTrees_run in H1. injection H1 as H1 _.
      by destruct (server w _) as [|[v|]|class| |]. }
  split; [done|]. split.
  - destruct Hkinds as [H | [H | (e & H & _)]]; by rewrite H.
  - intros key.
    destruct Hkinds as [H | [H | (e & H & He)]]; rewrite H; [done | done |].
    intros [= ->].
    destruct He as [He | [He | [He | [He | [He | [class He]]]]]]; discriminate He.
Qed.

(** A reply without the key ['respMsg'] (an error reply, say) makes
    [validPath] return [False] for every path, and print that ['respMsg'] is
    the invalid segment. *)
Theorem validPath_without_respMsg targetPath w tree1 d :
  server w (posted w ++ [path_trees_request]) = Body (Some tree1) ->
  server w (posted w ++ [path_trees_request; path_trees_request])
    = Body (Some (VDict d)) ->
  d !! "respMsg" = None ->
  fst (validPath targetPath w) = Return (VBool false) /\
  stdout (snd (validPath targetPath w))
    = stdout w ++ ["Invalid path at: respMsg"%string].
Proof.
  intros H1 H2 Hd.
  destruct (validPath_run targetPath w tree1 (VDict d) H1 H2)
    as (w2 & _ & Hout & _ & ->).
  rewrite (checkPath_absent _ _ _ _ Hd). cbn. by rewrite Hout.
Qed.

Lemma validPath_without_respMsg_witness :
  fst (validPath ["childes"]
         (world_with ∅ [] (Body (Some (VDict {[ "error" := VStr "busy" ]})))))
    = Return (VBool false) /\
  stdout (snd (validPath ["childes"]
         (world_with ∅ [] (Body (Some (VDict {[ "error" := VStr "busy" ]}))))))
    = [] ++ ["Invalid path at: respMsg"%string].
Proof.
  apply (validPath_without_respMsg ["childes"]
           (world_with ∅ [] (Body (Some (VDict {[ "error" := VStr "busy" ]}))))
           (VDict {[ "error" := VStr "busy" ]}) {[ "error" := VStr "busy" ]});
    reflexivity.
Defined.

Lemma nested_mapping_two_corpora : nested_mapping two_corpora.
Proof.
  constructor. intros k v Hk.
  apply lookup_insert_Some in Hk as [[_ <-] | [_ Hk]].
  - constructor. intros k1 v1 Hk1.
    apply lookup_singleton_Some in Hk1 as [_ <-].
    constructor. intros k2 v2 Hk2.
    apply lookup_singleton_Some in Hk2 as [_ <-].
    constructor. intros k3 v3 Hk3. by rewrite lookup_empty in Hk3.
  - apply lookup_singleton_Some in Hk as [_ <-].
    constructor. intros k1 v1 Hk1. by rewrite lookup_empty in Hk1.
Qed.

(** On a tree of nested dictionaries the descent prints exactly one line
    when the path is not in the tree, naming the first segment that is
    missing, and prints nothing when the whole path is there; it touches
    nothing but standard output.  So the printed line tells a missing path
    from a present one even where the returned value does not. *)
Theorem checkPath_reports_first_missing_segment targetPath pathTree w :
  nested_mapping pathTree ->
  stdout (snd (checkPath targetPath pathTree w)) =
    stdout w ++ match first_missing targetPath pathTree with
                | Some segment => [("Invalid path at: " ++ segment)%string]
                | None => []
                end /\
  heap (snd (checkPath targetPath pathTree w)) = heap w /\
  posted (snd (checkPath targetPath pathTree w)) = posted w /\
  keyboard (snd (checkPath targetPath pathTree w)) = keyboard w.
Proof.
  revert pathTree w.
  induction targetPath as [|segment rest IH]; intros pathTree w Hnm.
  - cbn. by rewrite app_nil_r.
  - destruct Hnm as [d Hd]. cbn [first_missing].
    destruct (d !! segment) as [subtree|] eqn:Hs.
    + rewrite (checkPath_found _ _ _ _ _ Hs).
      specialize (IH subtree w (Hd _ _ Hs)).
      destruct (checkPath_returns_on_mappings rest subtree w (Hd _ _ Hs))
        as (r & w' & Hrun).
      by rewrite Hrun in IH |- *.
    + by rewrite (checkPath_absent _ _ _ _ Hs).
Qed.

Lemma checkPath_reports_first_missing_segment_witness :
  stdout (snd (checkPath ["childes"; "Eng-UK"; "MacWhinney"] two_corpora
                 clinical_world))
    = [] ++ ["Invalid path at: Eng-UK"%string] /\
  heap (snd (checkPath ["childes"; "Eng-UK"; "MacWhinney"] two_corpora
               clinical_world)) = heap clinical_world /\
  posted (snd (checkPath ["childes"; "Eng-UK"; "MacWhinney"] two_corpora
                 clinical_world)) = [] /\
  keyboard (snd (checkPath ["childes"; "Eng-UK"; "MacWhinney"] two_corpora
                   clinical_world)) = [].
Proof.
  apply (checkPath_reports_first_missing_segment
           ["childes"; "Eng-UK"; "MacWhinney"] two_corpora clinical_world).
  apply nested_mapping_two_corpora.
Defined.

End ValidatorBehaviour.
